(** * KristWeb2: AddressButtonRow and TransactionsTable

    A shallow embedding of the two React components
    [pages/addresses/AddressButtonRow.tsx] and the transactions table
    ([TransactionsTable]), with the properties of their rendering and of the
    table's fetch life cycle.

    - JavaScript values that the code tests for truthiness are a small
      inductive [JsVal]; [&&] is written out with its short-circuit
      result.
    - JSX is a tree of [Element]s that keeps the component name and the props
      the source passes.
    - React state ([useState]) is a record; the effect and the promise chain
      are programs in a small state monad over the component's state and the
      trace of calls that leave the component ([lookupTransactions],
      [setError]). *)

From Stdlib Require Import String Ascii List ZArith Bool Lia.
From stdpp Require Import base option list gmap strings.
Import ListNotations.

Local Open Scope Z_scope.
Local Open Scope string_scope.
Local Open Scope list_scope.

(** ** JavaScript values and truthiness *)

Module Js.

(** The primitive values that reach a truthiness test in the two
    components. *)
Inductive JsVal :=
| JUndefined
| JNull
| JBool (b : bool)
| JNum (z : Z)
| JStr (s : string).

(** ToBoolean: undefined, null, false, 0 and the empty string are falsy. *)
Definition truthy (v : JsVal) : bool :=
  match v with
  | JUndefined | JNull => false
  | JBool b => b
  | JNum z => negb (Z.eqb z 0)
  | JStr s => negb (String.eqb s "")
  end.

(** [a === b] on two strings: equality of the two sequences of code
    units, no normalisation. *)
Definition strict_eq_str (a b : string) : bool := String.eqb a b.

(** [Array.prototype.find]: the first element that satisfies the
    predicate, undefined (None) when there is none. *)
Fixpoint Array_find {A : Type} (f : A -> bool) (l : list A) : option A :=
  match l with
  | [] => None
  | x :: tl => if f x then Some x else Array_find f tl
  end.

(** [Array.prototype.includes] on strings (SameValueZero is [===] there). *)
Fixpoint Array_includes (l : list string) (s : string) : bool :=
  match l with
  | [] => false
  | x :: tl => if strict_eq_str x s then true else Array_includes tl s
  end.

End Js.
Import Js.

(** ** AddressButtonRow *)

(** Modelled from the spec: the record type [KristAddressWithNames] of
    krist/api/lookup is not among the sources; the component reads its
    [address] identifier only, the count of names stands for the rest. *)
Record KristAddressWithNames := {
  address : string;
  names : option Z
}.

(** Modelled from the spec: the type [Wallet] of krist/wallets/Wallet is not
    among the sources; a wallet has an [address] field, which is all the
    component reads. *)
Record Wallet := {
  wallet_id : string;
  wallet_address : string
}.

(** The wallet set of [useWallets()] is an object keyed by wallet id.
    [Object.values] enumerates it in property order, so the object is kept as
    the association list of its properties in that order. *)
Definition WalletMap := list (string * Wallet).

Definition Object_values (wallets : WalletMap) : list Wallet := map snd wallets.

Inductive Icon := SendOutlined | SwapOutlined | UserAddOutlined | EditOutlined.

(** A call [t(key, { address })] of the translation function. *)
Record Translation := {
  t_key : string;
  t_address : option string
}.

#[warnings="-register-all"]
Inductive Element :=
| Button (primary : bool) (icon : Icon) (children : Translation)
| WalletEditButton (wallet : Wallet) (child : Element)
| Fragment (children : list Element).

(** [w => w.address === address.address] *)
Definition wallet_matches (a : KristAddressWithNames) (w : Wallet) : bool :=
  strict_eq_str (wallet_address w) (address a).

Definition myWallet (a : KristAddressWithNames) (wallets : WalletMap)
  : option Wallet :=
  Array_find (wallet_matches a) (Object_values wallets).

(** The component. A wallet is an object, hence truthy when found; the
    conditionals test whether [find] returned one. *)
Definition AddressButtonRow (a : KristAddressWithNames) (wallets : WalletMap)
  : Element :=
  let mw := myWallet a wallets in
  Fragment
    [ match mw with
      | Some _ =>
          Button true SwapOutlined
            {| t_key := "address.buttonTransferKrist";
               t_address := Some (address a) |}
      | None =>
          Button true SendOutlined
            {| t_key := "address.buttonSendKrist";
               t_address := Some (address a) |}
      end;
      match mw with
      | Some w =>
          WalletEditButton w
            (Button false EditOutlined
               {| t_key := "address.buttonEditWallet"; t_address := None |})
      | None =>
          Button false UserAddOutlined
            {| t_key := "address.buttonAddFriend"; t_address := None |}
      end ].

(** What a rendered element offers to the user, read off the element: the
    edit-flow trigger is the [WalletEditButton] wrapper, a plain button is
    told by its label. *)
Inductive Action := TransferAction | SendAction | EditWalletAction | AddFriendAction.

Definition action_of (e : Element) : option Action :=
  match e with
  | Button _ _ lbl =>
      if String.eqb (t_key lbl) "address.buttonTransferKrist" then Some TransferAction
      else if String.eqb (t_key lbl) "address.buttonSendKrist" then Some SendAction
      else if String.eqb (t_key lbl) "address.buttonAddFriend" then Some AddFriendAction
      else None
  | WalletEditButton _ (Button _ _ lbl) =>
      if String.eqb (t_key lbl) "address.buttonEditWallet" then Some EditWalletAction
      else None
  | _ => None
  end.

Definition rendered_children (e : Element) : list Element :=
  match e with
  | Fragment l => l
  | _ => [e]
  end.

Definition rendered_actions (e : Element) : list (option Action) :=
  map action_of (rendered_children e).

(** Two ways in which two different strings can look alike. *)
Definition lower_ascii (c : ascii) : ascii :=
  let n := nat_of_ascii c in
  if (andb (Nat.leb 65 n) (Nat.leb n 90)) then ascii_of_nat (n + 32) else c.

Fixpoint to_lower (s : string) : string :=
  match s with
  | EmptyString => EmptyString
  | String c tl => String (lower_ascii c) (to_lower tl)
  end.

Definition is_space (c : ascii) : bool :=
  let n := nat_of_ascii c in
  orb (Nat.eqb n 32) (andb (Nat.leb 9 n) (Nat.leb n 13)).

Fixpoint strip_spaces (s : string) : string :=
  match s with
  | EmptyString => EmptyString
  | String c tl => if is_space c then strip_spaces tl else String c (strip_spaces tl)
  end.

Definition differ_only_in_case (a b : string) : Prop :=
  a <> b /\ to_lower a = to_lower b.

Definition differ_only_in_whitespace (a b : string) : Prop :=
  a <> b /\ strip_spaces a = strip_spaces b.

(** ** TransactionsTable: data *)

(** Modelled from the spec: the enum [LookupTransactionType] of
    krist/api/lookup is not among the sources; its three members are the ones
    the table names. *)
Inductive LookupTransactionType := TRANSACTIONS | NAME_HISTORY | NAME_TRANSACTIONS.

(** [ListingType] is a numeric enum of TransactionsPage; the table keys
    its map by the numbers 0 to 4. *)
Definition ListingType := Z.

Definition LISTING_TYPE_MAP : gmap Z LookupTransactionType :=
  list_to_map
    [ (0, TRANSACTIONS);
      (1, TRANSACTIONS);
      (2, TRANSACTIONS);
      (3, NAME_HISTORY);
      (4, NAME_TRANSACTIONS) ].

Inductive SortOrder := ASC | DESC.

(** Modelled from the spec: the interface [LookupTransactionsOptions] of
    krist/api/lookup is not among the sources; it holds limit, offset,
    orderBy, order, the type filter and includeMined, each optional. *)
Record LookupTransactionsOptions := {
  opt_limit : option Z;
  opt_offset : option Z;
  opt_orderBy : option string;
  opt_order : option SortOrder;
  opt_includeMined : option bool;
  opt_type : option LookupTransactionType
}.

(** Modelled from the spec: the interface [KristTransaction] of
    krist/api/types is not among the sources; the fields are the ones the
    columns read. The type tag is the API's string. *)
Record KristTransaction := {
  tx_id : Z;
  tx_from : option string;
  tx_to : option string;
  tx_value : Z;
  tx_time : string;
  tx_name : option string;
  tx_metadata : option string;
  tx_type : string
}.

(** Modelled from the spec: the response of [lookupTransactions], a sequence
    of transactions with the count and total used for pagination. *)
Record LookupTransactionsResponse := {
  transactions : list KristTransaction;
  count : Z;
  total : Z
}.

(** The three [useState] cells of the component. *)
Record State := {
  loading : bool;
  res : option LookupTransactionsResponse;
  options : LookupTransactionsOptions
}.

(** What the column renderers return: a primitive (the left operand of a
    short-circuited [&&]) or one of the components the table uses. *)
Inductive Cell :=
| CVal (v : JsVal)
| CLink (to : Z) (text : Z)
| CTransactionType (transaction : KristTransaction)
| CContextualAddress (className : string) (addr : string)
    (metadata : option string) (allowWrap : bool)
| CKristValue (value : Z)
| CKristNameLink (nm : option string)
| CTransactionConciseMetadata (transaction : KristTransaction)
| CDateTime (date : string).

(** Elements are objects, hence truthy. *)
Definition cell_truthy (c : Cell) : bool :=
  match c with
  | CVal v => truthy v
  | _ => true
  end.

(** [a && b]: [a] itself when it is falsy, else [b]. *)
Definition js_and (a b : Cell) : Cell := if cell_truthy a then b else a.

(** React shows nothing for a boolean, null, undefined or the empty
    string. *)
Definition renders_nothing (c : Cell) : bool :=
  match c with
  | CVal JUndefined | CVal JNull | CVal (JBool _) => true
  | CVal (JStr s) => String.eqb s ""
  | _ => false
  end.

Definition is_address_reference (c : Cell) : bool :=
  match c with
  | CContextualAddress _ _ _ _ => true
  | _ => false
  end.

Definition is_value (c : Cell) : bool :=
  match c with
  | CKristValue _ => true
  | _ => false
  end.

Inductive SortDirection := ascend | descend.

Record Column := {
  col_title : string;
  col_dataIndex : string;
  col_key : string;
  col_render : KristTransaction -> Cell;
  col_width : option Z;
  col_sorter : bool;
  col_defaultSortOrder : option SortDirection
}.

Record TableProps := {
  tp_className : string;
  tp_size : string;
  tp_loading : bool;
  tp_dataSource : list KristTransaction;
  tp_rowKey : string;
  tp_columns : list Column
}.

(** ** TransactionsTable: the component *)

Section TransactionsTable.

(** The reasons a lookup can reject with. *)
Variable Reason : Type.

(** The dispatchers a caller can hand over as [setError]. Their effect is
    the caller's; the component only calls them. *)
Variable Dispatch : Type.

(** The allow-list of components/transactions/TransactionType, which is
    not among the sources. *)
Variable TYPES_SHOW_VALUE : list string.

Record Props := {
  listingType : ListingType;
  refreshingID : option Z;
  addresses : option (list string);
  name : option string;
  includeMined : option bool;
  setError : option Dispatch
}.

(** *** Rendering *)

(** antd calls [render(record[dataIndex], record)]; the renderers below
    take the record and read the cell's field themselves. *)

Definition render_id (tx : KristTransaction) : Cell :=
  CLink (tx_id tx) (tx_id tx).

Definition render_type (tx : KristTransaction) : Cell :=
  CTransactionType tx.

(** [from && tx.type !== "mined" && <ContextualAddress ... />] *)
Definition render_from (tx : KristTransaction) : Cell :=
  match tx_from tx with
  | None => CVal JNull
  | Some from =>
      js_and
        (js_and (CVal (JStr from))
                (CVal (JBool (negb (strict_eq_str (tx_type tx) "mined")))))
        (CContextualAddress "transactions-table-address" from
           (tx_metadata tx) true)
  end.

(** [to && tx.type !== "name_purchase" && tx.type !== "name_a_record"
     && <ContextualAddress ... />] *)
Definition render_to (tx : KristTransaction) : Cell :=
  match tx_to tx with
  | None => CVal JNull
  | Some to =>
      js_and
        (js_and
           (js_and (CVal (JStr to))
                   (CVal (JBool (negb (strict_eq_str (tx_type tx) "name_purchase")))))
           (CVal (JBool (negb (strict_eq_str (tx_type tx) "name_a_record")))))
        (CContextualAddress "transactions-table-address" to
           (tx_metadata tx) true)
  end.

(** [TYPES_SHOW_VALUE.includes(tx.type) && <KristValue value={value} />] *)
Definition render_value (tx : KristTransaction) : Cell :=
  js_and (CVal (JBool (Array_includes TYPES_SHOW_VALUE (tx_type tx))))
         (CKristValue (tx_value tx)).

Definition render_name (tx : KristTransaction) : Cell :=
  CKristNameLink (tx_name tx).

Definition render_metadata (tx : KristTransaction) : Cell :=
  CTransactionConciseMetadata tx.

Definition render_time (tx : KristTransaction) : Cell :=
  CDateTime (tx_time tx).

Definition columns : list Column :=
  [ {| col_title := "transactions.columnID";
       col_dataIndex := "id"; col_key := "id";
       col_render := render_id;
       col_width := Some 100;
       col_sorter := false; col_defaultSortOrder := None |};
    {| col_title := "transactions.columnType";
       col_dataIndex := "type"; col_key := "type";
       col_render := render_type;
       col_width := None;
       col_sorter := false; col_defaultSortOrder := None |};
    {| col_title := "transactions.columnFrom";
       col_dataIndex := "from"; col_key := "from";
       col_render := render_from;
       col_width := None;
       col_sorter := true; col_defaultSortOrder := None |};
    {| col_title := "transactions.columnTo";
       col_dataIndex := "to"; col_key := "to";
       col_render := render_to;
       col_width := None;
       col_sorter := true; col_defaultSortOrder := None |};
    {| col_title := "transactions.columnValue";
       col_dataIndex := "value"; col_key := "value";
       col_render := render_value;
       col_width := Some 100;
       col_sorter := true; col_defaultSortOrder := None |};
    {| col_title := "transactions.columnName";
       col_dataIndex := "name"; col_key := "name";
       col_render := render_name;
       col_width := None;
       col_sorter := true; col_defaultSortOrder := None |};
    {| col_title := "transactions.columnMetadata";
       col_dataIndex := "metadata"; col_key := "metadata";
       col_render := render_metadata;
       col_width := Some 260;
       col_sorter := false; col_defaultSortOrder := None |};
    {| col_title := "transactions.columnTime";
       col_dataIndex := "time"; col_key := "time";
       col_render := render_time;
       col_width := Some 200;
       col_sorter := true; col_defaultSortOrder := Some descend |} ].

(** [res?.transactions || []]: an array is truthy, so the fallback is
    taken exactly when there is no response. *)
Definition dataSource (s : State) : list KristTransaction :=
  match res s with
  | Some r => transactions r
  | None => []
  end.

(** The props the component hands to the table widget. *)
Definition TransactionsTable_render (s : State) : TableProps :=
  {| tp_className := "transactions-table";
     tp_size := "small";
     tp_loading := loading s;
     tp_dataSource := dataSource s;
     tp_rowKey := "id";
     tp_columns := columns |}.

(** The cell the table shows for a transaction in the column of a key. *)
Definition cell_of (key : string) (tx : KristTransaction) : option Cell :=
  match Array_find (fun c => strict_eq_str (col_key c) key) columns with
  | Some c => Some (col_render c tx)
  | None => None
  end.

(** The initial values given to [useState]. *)
Definition initialState : State :=
  {| loading := true;
     res := None;
     options :=
       {| opt_limit := Some 20;
          opt_offset := Some 0;
          opt_orderBy := Some "time";
          opt_order := Some DESC;
          opt_includeMined := None;
          opt_type := None |} |}.

(** *** The fetch *)

(** Calls that leave the component, in the order they are made. *)
Inductive Call :=
| Call_lookupTransactions (targets : option (list string))
    (opts : LookupTransactionsOptions)
| Call_setError (d : Dispatch) (reason : Reason).

Record World := {
  state : State;
  calls : list Call
}.

(** A program over the world. *)
Definition M (A : Type) : Type := World -> A * World.

Definition ret {A} (a : A) : M A := fun w => (a, w).

Definition bind {A B} (m : M A) (k : A -> M B) : M B :=
  fun w => let (a, w') := m w in k a w'.

Definition exec {A} (m : M A) (w : World) : World := snd (m w).

Definition eval {A} (m : M A) (w : World) : A := fst (m w).

Local Notation "'do' x <- m ;; k" := (bind m (fun x => k))
  (at level 10, x name, m at level 99, k at level 200).
Local Notation "'run' m ;; k" := (bind m (fun _ => k))
  (at level 10, m at level 99, k at level 200).

(** The state setters of [useState]; each replaces one cell. *)
Definition setLoading (b : bool) : M unit :=
  fun w =>
    (tt, {| state := {| loading := b;
                        res := res (state w);
                        options := options (state w) |};
            calls := calls w |}).

Definition setRes (r : LookupTransactionsResponse) : M unit :=
  fun w =>
    (tt, {| state := {| loading := loading (state w);
                        res := Some r;
                        options := options (state w) |};
            calls := calls w |}).

Definition getOptions : M LookupTransactionsOptions :=
  fun w => (options (state w), w).

(** The two collaborators: calling them is recorded, nothing else. *)
Definition lookupTransactions (targets : option (list string))
    (opts : LookupTransactionsOptions) : M unit :=
  fun w =>
    (tt, {| state := state w;
            calls := calls w ++ [Call_lookupTransactions targets opts] |}).

Definition call_setError (d : Dispatch) (reason : Reason) : M unit :=
  fun w =>
    (tt, {| state := state w;
            calls := calls w ++ [Call_setError d reason] |}).

(** *** Promises *)

(** How a handler ends, and how a promise settles. *)
Inductive Completion (A : Type) :=
| Normal (v : A)
| Throw (e : Reason).

Inductive Settled (A : Type) :=
| Fulfilled (v : A)
| Rejected (e : Reason).

Arguments Normal {A} v.
Arguments Throw {A} e.
Arguments Fulfilled {A} v.
Arguments Rejected {A} e.

Definition settle_with {A} (c : Completion A) : Settled A :=
  match c with
  | Normal v => Fulfilled v
  | Throw e => Rejected e
  end.

(** A function that returns without throwing. *)
Definition returns {A} (m : M A) : M (Completion A) :=
  do a <- m ;; ret (Normal a).

(** [p.then(onFulfilled)]: a rejection passes through. *)
Definition Promise_then {A B} (onFulfilled : A -> M (Completion B))
    (p : Settled A) : M (Settled B) :=
  match p with
  | Fulfilled v => do c <- onFulfilled v ;; ret (settle_with c)
  | Rejected e => ret (Rejected e)
  end.

(** [p.catch(onRejected)]: a fulfilment passes through, and so does a
    rejection when [onRejected] is not a function (undefined). *)
Definition Promise_catch {A} (onRejected : option (Reason -> M (Completion A)))
    (p : Settled A) : M (Settled A) :=
  match p with
  | Fulfilled v => ret (Fulfilled v)
  | Rejected e =>
      match onRejected with
      | Some h => do c <- h e ;; ret (settle_with c)
      | None => ret (Rejected e)
      end
  end.

(** [p.finally(onFinally)]: the callback runs on either settlement, which
    is kept unless the callback throws. *)
Definition Promise_finally {A} (onFinally : M (Completion unit))
    (p : Settled A) : M (Settled A) :=
  do c <- onFinally ;;
  ret (match c with
       | Normal _ => p
       | Throw e => Rejected e
       end).

(** *** The effect *)

(** [name ? [name] : addresses] *)
Definition lookup_targets (p : Props) : option (list string) :=
  match name p with
  | Some n => if truthy (JStr n) then Some [n] else addresses p
  | None => addresses p
  end.

(** [{ ...options, includeMined, type: LISTING_TYPE_MAP[listingType] }] *)
Definition lookup_options (p : Props) (o : LookupTransactionsOptions)
  : LookupTransactionsOptions :=
  {| opt_limit := opt_limit o;
     opt_offset := opt_offset o;
     opt_orderBy := opt_orderBy o;
     opt_order := opt_order o;
     opt_includeMined := includeMined p;
     opt_type := LISTING_TYPE_MAP !! listingType p |}.

(** The synchronous part of the effect: [setLoading(true)], then the call
    of [lookupTransactions] with the options of the current render. The
    [debug] line before it writes a log line and nothing else. *)
Definition useEffect_fetch (p : Props) : M unit :=
  run setLoading true ;;
  do o <- getOptions ;;
  lookupTransactions (lookup_targets p) (lookup_options p o).

(** [.catch(setError)]: the handler is the prop, which may be undefined. *)
Definition catch_handler (p : Props)
  : option (Reason -> M (Completion unit)) :=
  match setError p with
  | Some d => Some (fun e => returns (call_setError d e))
  | None => None
  end.

(** The reactions [.then(setRes).catch(setError).finally(() =>
    setLoading(false))], run when the lookup's promise settles. The result
    is the settlement of the promise at the end of the chain. *)
Definition fetch_settled (p : Props)
    (outcome : Settled LookupTransactionsResponse) : M (Settled unit) :=
  do p1 <- Promise_then (fun r => returns (setRes r)) outcome ;;
  do p2 <- Promise_catch (catch_handler p) p1 ;;
  Promise_finally (returns (setLoading false)) p2.

(** The calls of the error sink among a sequence of calls. *)
Fixpoint setError_calls (cs : list Call) : list (Dispatch * Reason) :=
  match cs with
  | [] => []
  | Call_setError d e :: tl => (d, e) :: setError_calls tl
  | Call_lookupTransactions _ _ :: tl => setError_calls tl
  end.

(** The calls of the lookup among a sequence of calls. *)
Fixpoint lookup_calls (cs : list Call)
  : list (option (list string) * LookupTransactionsOptions) :=
  match cs with
  | [] => []
  | Call_lookupTransactions t o :: tl => (t, o) :: lookup_calls tl
  | Call_setError _ _ :: tl => lookup_calls tl
  end.

(** The world at mount: the initial state, nothing called yet. *)
Definition initialWorld : World :=
  {| state := initialState; calls := [] |}.

End TransactionsTable.

Arguments Normal {Reason A} v.
Arguments Throw {Reason A} e.
Arguments Fulfilled {Reason A} v.
Arguments Rejected {Reason A} e.
Arguments Call_lookupTransactions {Reason Dispatch} targets opts.
Arguments Call_setError {Reason Dispatch} d reason.
Arguments listingType {Dispatch} _.
Arguments refreshingID {Dispatch} _.
Arguments addresses {Dispatch} _.
Arguments name {Dispatch} _.
Arguments includeMined {Dispatch} _.
Arguments setError {Dispatch} _.
Arguments state {Reason Dispatch} _.
Arguments calls {Reason Dispatch} _.
Arguments exec {Reason Dispatch A} m w.
Arguments eval {Reason Dispatch A} m w.
Arguments useEffect_fetch {Reason Dispatch} p.
Arguments fetch_settled {Reason Dispatch} p outcome.
Arguments lookup_targets {Dispatch} p.
Arguments lookup_options {Dispatch} p o.
Arguments setError_calls {Reason Dispatch} cs.
Arguments lookup_calls {Reason Dispatch} cs.
Arguments initialWorld {Reason Dispatch}.

(** ** TransactionsTable: the debug line and the life cycle *)

(** [Array.prototype.join] on an array of strings. *)
Fixpoint Array_join (sep : string) (l : list string) : string :=
  match l with
  | [] => ""
  | x :: tl =>
      match tl with
      | [] => x
      | _ :: _ => String.append x (String.append sep (Array_join sep tl))
      end
  end.

(** [name || (addresses ? addresses.join(",") : "network")], the target the
    effect's debug line names. An array is truthy, also when empty. *)
Definition debug_target {Dispatch : Type} (p : Props Dispatch) : string :=
  let fallback :=
    match addresses p with
    | Some a => Array_join "," a
    | None => "network"
    end in
  match name p with
  | Some n => if truthy (JStr n) then n else fallback
  | None => fallback
  end.

Section LifeCycle.

Context {Reason Dispatch : Type}.

(** What happens to a mounted table: the effect runs (at mount and after
    each change of a dependency) under the props of that render, and the
    promise of a lookup issued under some props settles. *)
Inductive Event :=
| Ev_effect (p : Props Dispatch)
| Ev_settled (p : Props Dispatch)
    (outcome : Settled Reason LookupTransactionsResponse).

Definition step (ev : Event) (w : World Reason Dispatch)
  : World Reason Dispatch :=
  match ev with
  | Ev_effect p => exec (useEffect_fetch p) w
  | Ev_settled p outcome => exec (fetch_settled p outcome) w
  end.

Fixpoint play (evs : list Event) (w : World Reason Dispatch)
  : World Reason Dispatch :=
  match evs with
  | [] => w
  | ev :: tl => play tl (step ev w)
  end.

(** Read off a sequence of events: the response of the last fulfilment
    ([r0] when there is none), *)
Fixpoint last_fulfilled (evs : list Event)
    (r0 : option LookupTransactionsResponse)
  : option LookupTransactionsResponse :=
  match evs with
  | [] => r0
  | Ev_settled _ (Fulfilled r) :: tl => last_fulfilled tl (Some r)
  | _ :: tl => last_fulfilled tl r0
  end.

(** whether the last event was a run of the effect ([b0] when there is no
    event), *)
Fixpoint last_is_effect (evs : list Event) (b0 : bool) : bool :=
  match evs with
  | [] => b0
  | Ev_effect _ :: tl => last_is_effect tl true
  | Ev_settled _ _ :: tl => last_is_effect tl false
  end.

(** the props of the runs of the effect, in order, *)
Fixpoint effect_props (evs : list Event) : list (Props Dispatch) :=
  match evs with
  | [] => []
  | Ev_effect p :: tl => p :: effect_props tl
  | Ev_settled _ _ :: tl => effect_props tl
  end.

(** and the rejections that arrived under props with an error sink, in
    order. *)
Fixpoint sunk_rejections (evs : list Event) : list (Dispatch * Reason) :=
  match evs with
  | [] => []
  | Ev_settled p (Rejected e) :: tl =>
      match setError p with
      | Some d => (d, e) :: sunk_rejections tl
      | None => sunk_rejections tl
      end
  | _ :: tl => sunk_rejections tl
  end.

(** A settlement that is a fulfilment. *)
Definition is_fulfilment (ev : Event) : bool :=
  match ev with
  | Ev_settled _ (Fulfilled _) => true
  | _ => false
  end.

End LifeCycle.

Arguments Event : clear implicits.

(** * Properties *)

(** ** Arrays *)

Lemma Array_find_Some {A : Type} (f : A -> bool) (l : list A) (x : A) :
  Array_find f l = Some x -> In x l /\ f x = true.
Proof.
  induction l as [|y tl IH]; simpl; [discriminate|].
  destruct (f y) eqn:Hy.
  - intros [= ->]. auto.
  - intros H. destruct (IH H). auto.
Qed.

Lemma Array_find_None {A : Type} (f : A -> bool) (l : list A) :
  Array_find f l = None <-> (forall x, In x l -> f x = false).
Proof.
  induction l as [|y tl IH]; simpl.
  - split; [intros _ x []|reflexivity].
  - destruct (f y) eqn:Hy.
    + split; [discriminate|]. intros H. specialize (H y (or_introl eq_refl)). congruence.
    + rewrite IH. split.
      * intros H x [<-|Hx]; auto.
      * intros H x Hx. apply H. now right.
Qed.

Lemma Array_find_exists {A : Type} (f : A -> bool) (l : list A) :
  (exists x, In x l /\ f x = true) ->
  exists y, Array_find f l = Some y /\ In y l /\ f y = true.
Proof.
  intros [x [Hin Hx]].
  destruct (Array_find f l) as [y|] eqn:E.
  - exists y. destruct (Array_find_Some _ _ _ E). auto.
  - rewrite Array_find_None in E. rewrite (E x Hin) in Hx. discriminate.
Qed.

Lemma Array_includes_In (l : list string) (s : string) :
  Array_includes l s = true <-> In s l.
Proof.
  induction l as [|x tl IH]; simpl.
  - split; [discriminate|tauto].
  - unfold strict_eq_str. destruct (String.eqb x s) eqn:E.
    + apply String.eqb_eq in E. tauto.
    + apply String.eqb_neq in E. rewrite IH. tauto.
Qed.

(** ** AddressButtonRow *)

Lemma wallet_matches_eq (a : KristAddressWithNames) (w : Wallet) :
  wallet_matches a w = true <-> wallet_address w = address a.
Proof. unfold wallet_matches, strict_eq_str. apply String.eqb_eq. Qed.

Lemma wallet_matches_neq (a : KristAddressWithNames) (w : Wallet) :
  wallet_matches a w = false <-> wallet_address w <> address a.
Proof. unfold wallet_matches, strict_eq_str. apply String.eqb_neq. Qed.

(** C2. When some wallet of the wallet set has the record's address, the row
    is exactly a transfer button followed by the edit trigger of the first
    such wallet; when no wallet has it, the row is exactly a send button
    followed by an add-friend button. *)
Theorem AddressButtonRow_two_buttons
    (a : KristAddressWithNames) (wallets : WalletMap) :
  ((exists w, In w (Object_values wallets) /\ wallet_address w = address a) ->
   exists w,
     myWallet a wallets = Some w /\
     In w (Object_values wallets) /\
     wallet_address w = address a /\
     AddressButtonRow a wallets =
       Fragment
         [ Button true SwapOutlined
             {| t_key := "address.buttonTransferKrist";
                t_address := Some (address a) |};
           WalletEditButton w
             (Button false EditOutlined
                {| t_key := "address.buttonEditWallet"; t_address := None |}) ] /\
     rendered_actions (AddressButtonRow a wallets) =
       [Some TransferAction; Some EditWalletAction])
  /\
  ((forall w, In w (Object_values wallets) -> wallet_address w <> address a) ->
   AddressButtonRow a wallets =
     Fragment
       [ Button true SendOutlined
           {| t_key := "address.buttonSendKrist";
              t_address := Some (address a) |};
         Button false UserAddOutlined
           {| t_key := "address.buttonAddFriend"; t_address := None |} ] /\
   rendered_actions (AddressButtonRow a wallets) =
     [Some SendAction; Some AddFriendAction]).
Proof.
  split.
  - intros [w0 [Hin Heq]].
    destruct (Array_find_exists (wallet_matches a) (Object_values wallets))
      as [w [Hfind [Hw Hm]]].
    { exists w0. split; [exact Hin|]. now apply wallet_matches_eq. }
    exists w. apply wallet_matches_eq in Hm.
    unfold AddressButtonRow, myWallet. rewrite Hfind.
    repeat split; auto.
  - intros Hnone.
    assert (Hfind : myWallet a wallets = None).
    { unfold myWallet. apply Array_find_None. intros x Hx.
      apply wallet_matches_neq. now apply Hnone. }
    unfold AddressButtonRow. rewrite Hfind. split; reflexivity.
Qed.

Lemma AddressButtonRow_two_buttons_witness :
  (exists w,
     myWallet {| address := "kre3w0i79j"; names := Some 2 |}
       [ ("w1", {| wallet_id := "w1"; wallet_address := "k5ztameslf" |});
         ("w2", {| wallet_id := "w2"; wallet_address := "kre3w0i79j" |}) ] = Some w /\
     wallet_id w = "w2") /\
  rendered_actions
    (AddressButtonRow {| address := "kre3w0i79j"; names := Some 2 |}
       [ ("w1", {| wallet_id := "w1"; wallet_address := "k5ztameslf" |}) ]) =
    [Some SendAction; Some AddFriendAction].
Proof.
  split.
  - destruct (AddressButtonRow_two_buttons
                {| address := "kre3w0i79j"; names := Some 2 |}
                [ ("w1", {| wallet_id := "w1"; wallet_address := "k5ztameslf" |});
                  ("w2", {| wallet_id := "w2"; wallet_address := "kre3w0i79j" |}) ])
      as [Hyes _].
    destruct Hyes as [w [Hw _]].
    + exists {| wallet_id := "w2"; wallet_address := "kre3w0i79j" |}.
      simpl. split; [right; left; reflexivity | reflexivity].
    + exists w. split; [exact Hw|].
      vm_compute in Hw. injection Hw as <-. reflexivity.
  - destruct (AddressButtonRow_two_buttons
                {| address := "kre3w0i79j"; names := Some 2 |}
                [ ("w1", {| wallet_id := "w1"; wallet_address := "k5ztameslf" |}) ])
      as [_ Hno].
    apply Hno. simpl. intros w [<-|[]]. simpl. discriminate.
Defined.

(** C8. The wallet match of AddressButtonRow holds exactly when the wallet's
    address and the record's address are the same string; two strings that
    differ only in letter case, or only in whitespace, do not match. *)
Theorem wallet_match_exact_string_equality
    (a : KristAddressWithNames) (w : Wallet) :
  (wallet_matches a w = true <-> wallet_address w = address a) /\
  (differ_only_in_case (wallet_address w) (address a) ->
   wallet_matches a w = false) /\
  (differ_only_in_whitespace (wallet_address w) (address a) ->
   wallet_matches a w = false).
Proof.
  split; [apply wallet_matches_eq|].
  split; intros [Hne _]; now apply wallet_matches_neq.
Qed.

Lemma wallet_match_exact_string_equality_witness :
  wallet_matches {| address := "kre3w0i79j"; names := None |}
    {| wallet_id := "w1"; wallet_address := "KRE3W0I79J" |} = false /\
  wallet_matches {| address := "kre3w0i79j"; names := None |}
    {| wallet_id := "w2"; wallet_address := " kre3w0i79j" |} = false /\
  myWallet {| address := "kre3w0i79j"; names := None |}
    [ ("w1", {| wallet_id := "w1"; wallet_address := "KRE3W0I79J" |});
      ("w2", {| wallet_id := "w2"; wallet_address := " kre3w0i79j" |}) ] = None.
Proof.
  split; [|split].
  - destruct (wallet_match_exact_string_equality
                {| address := "kre3w0i79j"; names := None |}
                {| wallet_id := "w1"; wallet_address := "KRE3W0I79J" |})
      as [_ [Hcase _]].
    apply Hcase. split; [discriminate | reflexivity].
  - destruct (wallet_match_exact_string_equality
                {| address := "kre3w0i79j"; names := None |}
                {| wallet_id := "w2"; wallet_address := " kre3w0i79j" |})
      as [_ [_ Hspace]].
    apply Hspace. split; [discriminate | reflexivity].
  - reflexivity.
Defined.

(** ** TransactionsTable: rendering *)

Lemma js_and_true (b : bool) (c : Cell) :
  js_and (CVal (JBool b)) c = if b then c else CVal (JBool false).
Proof. destruct b; reflexivity. Qed.

Lemma js_and_nonempty (s : string) (c : Cell) :
  s <> "" -> js_and (CVal (JStr s)) c = c.
Proof.
  intros Hs. unfold js_and. simpl.
  apply String.eqb_neq in Hs. now rewrite Hs.
Qed.

Lemma render_from_mined (tx : KristTransaction) :
  tx_type tx = "mined" -> renders_nothing (render_from tx) = true.
Proof.
  intros Ht. unfold render_from, strict_eq_str. rewrite Ht.
  destruct (tx_from tx) as [from|]; [|reflexivity].
  destruct (string_dec from "") as [->|Hne]; [reflexivity|].
  rewrite js_and_nonempty by exact Hne. reflexivity.
Qed.

Lemma render_to_name (tx : KristTransaction) :
  tx_type tx = "name_purchase" \/ tx_type tx = "name_a_record" ->
  renders_nothing (render_to tx) = true.
Proof.
  intros Ht. unfold render_to, strict_eq_str.
  destruct (tx_to tx) as [to|]; [|reflexivity].
  destruct (string_dec to "") as [->|Hne].
  - destruct (negb (String.eqb (tx_type tx) "name_purchase"));
      destruct (negb (String.eqb (tx_type tx) "name_a_record")); reflexivity.
  - rewrite js_and_nonempty by exact Hne.
    destruct Ht as [-> | ->]; reflexivity.
Qed.

Lemma render_from_shown (tx : KristTransaction) (a : string) :
  tx_type tx <> "mined" -> tx_from tx = Some a -> a <> "" ->
  render_from tx =
    CContextualAddress "transactions-table-address" a (tx_metadata tx) true.
Proof.
  intros Ht Hf Ha. unfold render_from, strict_eq_str. rewrite Hf.
  apply String.eqb_neq in Ht. rewrite Ht. simpl.
  rewrite js_and_nonempty by exact Ha. reflexivity.
Qed.

Lemma render_to_shown (tx : KristTransaction) (a : string) :
  tx_type tx <> "name_purchase" -> tx_type tx <> "name_a_record" ->
  tx_to tx = Some a -> a <> "" ->
  render_to tx =
    CContextualAddress "transactions-table-address" a (tx_metadata tx) true.
Proof.
  intros Ht1 Ht2 Hf Ha. unfold render_to, strict_eq_str. rewrite Hf.
  apply String.eqb_neq in Ht1, Ht2. rewrite Ht1, Ht2. simpl.
  rewrite js_and_nonempty by exact Ha. reflexivity.
Qed.

Lemma render_from_falsy_field (tx : KristTransaction) :
  tx_from tx = None \/ tx_from tx = Some "" ->
  renders_nothing (render_from tx) = true.
Proof. intros [H|H]; unfold render_from; rewrite H; reflexivity. Qed.

Lemma render_to_falsy_field (tx : KristTransaction) :
  tx_to tx = None \/ tx_to tx = Some "" ->
  renders_nothing (render_to tx) = true.
Proof. intros [H|H]; unfold render_to; rewrite H; reflexivity. Qed.

Lemma cell_of_from (T : list string) (tx : KristTransaction) :
  cell_of T "from" tx = Some (render_from tx).
Proof. reflexivity. Qed.

Lemma cell_of_to (T : list string) (tx : KristTransaction) :
  cell_of T "to" tx = Some (render_to tx).
Proof. reflexivity. Qed.

Lemma cell_of_value (T : list string) (tx : KristTransaction) :
  cell_of T "value" tx = Some (render_value T tx).
Proof. reflexivity. Qed.

(** C4, as the claim states it, fails for a field that is present but is the
    empty string: the From cell of such a transfer is the empty string
    itself, not an address reference. *)
Lemma from_cell_of_empty_field_is_no_address_reference :
  let tx := {| tx_id := 1; tx_from := Some ""; tx_to := Some "kre3w0i79j";
               tx_value := 10; tx_time := "2021-03-01T12:00:00.000Z";
               tx_name := None; tx_metadata := None;
               tx_type := "transfer" |} in
  tx_type tx <> "mined" /\
  tx_from tx = Some "" /\
  render_from tx = CVal (JStr "") /\
  is_address_reference (render_from tx) = false.
Proof. simpl. repeat split. discriminate. Qed.

(** C4, amended. For a mined transaction the From cell shows nothing; for a
    name purchase or a name A-record update the To cell shows nothing; for
    any other type the From (To) cell is the address reference of the field
    when the field is a non-empty string, and shows nothing when the field
    is absent or empty. *)
Theorem from_to_cells (T : list string) (tx : KristTransaction) :
  cell_of T "from" tx = Some (render_from tx) /\
  cell_of T "to" tx = Some (render_to tx) /\
  (tx_type tx = "mined" -> renders_nothing (render_from tx) = true) /\
  (tx_type tx = "name_purchase" \/ tx_type tx = "name_a_record" ->
   renders_nothing (render_to tx) = true) /\
  (forall a, tx_type tx <> "mined" -> tx_from tx = Some a -> a <> "" ->
     render_from tx =
       CContextualAddress "transactions-table-address" a (tx_metadata tx) true) /\
  (forall a, tx_type tx <> "name_purchase" -> tx_type tx <> "name_a_record" ->
     tx_to tx = Some a -> a <> "" ->
     render_to tx =
       CContextualAddress "transactions-table-address" a (tx_metadata tx) true) /\
  (tx_from tx = None \/ tx_from tx = Some "" ->
   renders_nothing (render_from tx) = true) /\
  (tx_to tx = None \/ tx_to tx = Some "" ->
   renders_nothing (render_to tx) = true).
Proof.
  split; [apply cell_of_from|].
  split; [apply cell_of_to|].
  split; [apply render_from_mined|].
  split; [apply render_to_name|].
  split; [intros a; apply render_from_shown|].
  split; [intros a; apply render_to_shown|].
  split; [apply render_from_falsy_field | apply render_to_falsy_field].
Qed.

Lemma from_to_cells_witness :
  renders_nothing
    (render_from {| tx_id := 7; tx_from := Some "kre3w0i79j"; tx_to := Some "k5ztameslf";
                    tx_value := 25; tx_time := "2021-03-01T12:00:00.000Z";
                    tx_name := None; tx_metadata := None;
                    tx_type := "mined" |}) = true /\
  renders_nothing
    (render_to {| tx_id := 8; tx_from := Some "kre3w0i79j"; tx_to := Some "name";
                  tx_value := 500; tx_time := "2021-03-01T12:00:00.000Z";
                  tx_name := Some "example"; tx_metadata := None;
                  tx_type := "name_purchase" |}) = true /\
  render_from {| tx_id := 9; tx_from := Some "kre3w0i79j"; tx_to := Some "k5ztameslf";
                 tx_value := 3; tx_time := "2021-03-01T12:00:00.000Z";
                 tx_name := None; tx_metadata := Some "hello";
                 tx_type := "transfer" |} =
    CContextualAddress "transactions-table-address" "kre3w0i79j" (Some "hello") true /\
  render_to {| tx_id := 9; tx_from := Some "kre3w0i79j"; tx_to := Some "k5ztameslf";
               tx_value := 3; tx_time := "2021-03-01T12:00:00.000Z";
               tx_name := None; tx_metadata := Some "hello";
               tx_type := "transfer" |} =
    CContextualAddress "transactions-table-address" "k5ztameslf" (Some "hello") true.
Proof.
  split; [|split; [|split]].
  - destruct (from_to_cells []
                {| tx_id := 7; tx_from := Some "kre3w0i79j"; tx_to := Some "k5ztameslf";
                   tx_value := 25; tx_time := "2021-03-01T12:00:00.000Z";
                   tx_name := None; tx_metadata := None;
                   tx_type := "mined" |}) as (_ & _ & H & _).
    apply H. reflexivity.
  - destruct (from_to_cells []
                {| tx_id := 8; tx_from := Some "kre3w0i79j"; tx_to := Some "name";
                   tx_value := 500; tx_time := "2021-03-01T12:00:00.000Z";
                   tx_name := Some "example"; tx_metadata := None;
                   tx_type := "name_purchase" |}) as (_ & _ & _ & H & _).
    apply H. left. reflexivity.
  - destruct (from_to_cells []
                {| tx_id := 9; tx_from := Some "kre3w0i79j"; tx_to := Some "k5ztameslf";
                   tx_value := 3; tx_time := "2021-03-01T12:00:00.000Z";
                   tx_name := None; tx_metadata := Some "hello";
                   tx_type := "transfer" |}) as (_ & _ & _ & _ & H & _).
    apply (H "kre3w0i79j"); [discriminate | reflexivity | discriminate].
  - destruct (from_to_cells []
                {| tx_id := 9; tx_from := Some "kre3w0i79j"; tx_to := Some "k5ztameslf";
                   tx_value := 3; tx_time := "2021-03-01T12:00:00.000Z";
                   tx_name := None; tx_metadata := Some "hello";
                   tx_type := "transfer" |}) as (_ & _ & _ & _ & _ & H & _).
    apply (H "k5ztameslf"); [discriminate | discriminate | reflexivity | discriminate].
Defined.

(** C5. The Value cell is a value exactly when the transaction's type is in
    the allow-list, and it then carries the transaction's value; for a type
    outside the list the cell is [false], which shows nothing. *)
Theorem value_cell_iff_allow_list (T : list string) (tx : KristTransaction) :
  cell_of T "value" tx = Some (render_value T tx) /\
  (is_value (render_value T tx) = true <-> In (tx_type tx) T) /\
  (In (tx_type tx) T -> render_value T tx = CKristValue (tx_value tx)) /\
  (~ In (tx_type tx) T ->
   render_value T tx = CVal (JBool false) /\
   renders_nothing (render_value T tx) = true).
Proof.
  split; [apply cell_of_value|].
  unfold render_value. rewrite js_and_true.
  destruct (Array_includes T (tx_type tx)) eqn:E.
  - apply Array_includes_In in E. repeat split; auto; contradiction.
  - assert (Hn : ~ In (tx_type tx) T).
    { intros Hin. apply Array_includes_In in Hin. congruence. }
    repeat split; auto; try contradiction. discriminate.
Qed.

Lemma value_cell_iff_allow_list_witness :
  render_value ["transfer"; "mined"]
    {| tx_id := 7; tx_from := None; tx_to := Some "k5ztameslf";
       tx_value := 25; tx_time := "2021-03-01T12:00:00.000Z";
       tx_name := None; tx_metadata := None;
       tx_type := "mined" |} = CKristValue 25 /\
  renders_nothing
    (render_value ["transfer"; "mined"]
       {| tx_id := 8; tx_from := Some "kre3w0i79j"; tx_to := Some "name";
          tx_value := 500; tx_time := "2021-03-01T12:00:00.000Z";
          tx_name := Some "example"; tx_metadata := None;
          tx_type := "name_purchase" |}) = true.
Proof.
  split.
  - destruct (value_cell_iff_allow_list ["transfer"; "mined"]
                {| tx_id := 7; tx_from := None; tx_to := Some "k5ztameslf";
                   tx_value := 25; tx_time := "2021-03-01T12:00:00.000Z";
                   tx_name := None; tx_metadata := None;
                   tx_type := "mined" |}) as (_ & _ & H & _).
    apply H. simpl. right. left. reflexivity.
  - destruct (value_cell_iff_allow_list ["transfer"; "mined"]
                {| tx_id := 8; tx_from := Some "kre3w0i79j"; tx_to := Some "name";
                   tx_value := 500; tx_time := "2021-03-01T12:00:00.000Z";
                   tx_name := Some "example"; tx_metadata := None;
                   tx_type := "name_purchase" |}) as (_ & _ & _ & H).
    apply H. simpl. intros [H1|[H1|[]]]; discriminate H1.
Defined.

(** ** TransactionsTable: the fetch *)

Section FetchProperties.

Context {Reason Dispatch : Type}.

Implicit Types (p : Props Dispatch) (w : World Reason Dispatch).

Lemma useEffect_fetch_state p w :
  state (exec (useEffect_fetch p) w) =
    {| loading := true; res := res (state w); options := options (state w) |}.
Proof. reflexivity. Qed.

Lemma useEffect_fetch_calls p w :
  calls (exec (useEffect_fetch p) w) =
    calls w ++ [Call_lookupTransactions (lookup_targets p)
                  (lookup_options p (options (state w)))].
Proof. reflexivity. Qed.

Lemma setError_calls_app (l1 l2 : list (Call Reason Dispatch)) :
  setError_calls (l1 ++ l2) = setError_calls l1 ++ setError_calls l2.
Proof.
  induction l1 as [|c tl IH]; simpl; [reflexivity|].
  destruct c; simpl; now rewrite IH.
Qed.

Lemma fetch_settled_rejected_sink p w (d : Dispatch) (e : Reason) :
  setError p = Some d ->
  fetch_settled p (Rejected e) w =
    (Fulfilled tt,
     {| state := {| loading := false;
                    res := res (state w);
                    options := options (state w) |};
        calls := calls w ++ [Call_setError d e] |}).
Proof.
  intros Hd. unfold fetch_settled, catch_handler. rewrite Hd. reflexivity.
Qed.

Lemma fetch_settled_rejected_no_sink p w (e : Reason) :
  setError p = None ->
  fetch_settled p (Rejected e) w =
    (Rejected e,
     {| state := {| loading := false;
                    res := res (state w);
                    options := options (state w) |};
        calls := calls w |}).
Proof.
  intros Hd. unfold fetch_settled, catch_handler. rewrite Hd. reflexivity.
Qed.

Lemma fetch_settled_fulfilled p w (r : LookupTransactionsResponse) :
  fetch_settled p (Fulfilled r) w =
    (Fulfilled tt,
     {| state := {| loading := false;
                    res := Some r;
                    options := options (state w) |};
        calls := calls w |}).
Proof.
  unfold fetch_settled, catch_handler. destruct (setError p); reflexivity.
Qed.

(** C3. The type filter of the lookup call is the entry of the listing type
    in LISTING_TYPE_MAP: the generic transactions type for each of the
    listing types 0, 1 and 2, the name-history type for 3 and the
    name-transactions type for 4, whatever type the options held before. *)
Theorem lookup_type_filter p w :
  calls (exec (useEffect_fetch p) w) =
    calls w ++ [Call_lookupTransactions (lookup_targets p)
                  (lookup_options p (options (state w)))] /\
  opt_type (lookup_options p (options (state w))) =
    LISTING_TYPE_MAP !! listingType p /\
  (listingType p = 0 \/ listingType p = 1 \/ listingType p = 2 ->
   opt_type (lookup_options p (options (state w))) = Some TRANSACTIONS) /\
  (listingType p = 3 ->
   opt_type (lookup_options p (options (state w))) = Some NAME_HISTORY) /\
  (listingType p = 4 ->
   opt_type (lookup_options p (options (state w))) = Some NAME_TRANSACTIONS).
Proof.
  split; [apply useEffect_fetch_calls|].
  split; [reflexivity|]. simpl.
  split; [|split].
  - intros [-> | [-> | ->]]; reflexivity.
  - intros ->. reflexivity.
  - intros ->. reflexivity.
Qed.

(** C6. The state given to the first render shows the table as loading,
    with no rows, and asks for 20 rows from offset 0 ordered by time,
    descending; time is the one column with a default sort order, which is
    descending. The mount effect, which only issues the first fetch, leaves
    all of this as it is. *)
Theorem first_render_state (T : list string) p :
  tp_loading (TransactionsTable_render T initialState) = true /\
  tp_dataSource (TransactionsTable_render T initialState) = [] /\
  options initialState =
    {| opt_limit := Some 20; opt_offset := Some 0;
       opt_orderBy := Some "time"; opt_order := Some DESC;
       opt_includeMined := None; opt_type := None |} /\
  map (fun c => (col_key c, col_defaultSortOrder c))
      (tp_columns (TransactionsTable_render T initialState)) =
    [ ("id", None); ("type", None); ("from", None); ("to", None);
      ("value", None); ("name", None); ("metadata", None);
      ("time", Some descend) ] /\
  state (exec (useEffect_fetch p) (@initialWorld Reason Dispatch)) = initialState.
Proof. repeat split. Qed.

(** C7, amended. The targets of the lookup call are the one-element list of
    the name when the name prop is a non-empty string, and the addresses
    prop when the name is absent or empty; the options of the call are the
    current limit, offset, orderBy and order together with the includeMined
    prop. *)
Theorem lookup_call_arguments p w :
  calls (exec (useEffect_fetch p) w) =
    calls w ++ [Call_lookupTransactions (lookup_targets p)
                  (lookup_options p (options (state w)))] /\
  (forall n, name p = Some n -> n <> "" -> lookup_targets p = Some [n]) /\
  (name p = None \/ name p = Some "" -> lookup_targets p = addresses p) /\
  opt_includeMined (lookup_options p (options (state w))) = includeMined p /\
  opt_limit (lookup_options p (options (state w))) = opt_limit (options (state w)) /\
  opt_offset (lookup_options p (options (state w))) = opt_offset (options (state w)) /\
  opt_orderBy (lookup_options p (options (state w))) = opt_orderBy (options (state w)) /\
  opt_order (lookup_options p (options (state w))) = opt_order (options (state w)).
Proof.
  split; [apply useEffect_fetch_calls|].
  split; [|split; [|repeat split]].
  - intros n Hn Hne. unfold lookup_targets. rewrite Hn. simpl.
    apply String.eqb_neq in Hne. now rewrite Hne.
  - intros [Hn | Hn]; unfold lookup_targets; rewrite Hn; reflexivity.
Qed.

(** C9, amended. With the empty string as name, the targets of the lookup
    call are the addresses prop, absent when that prop is absent: the
    truthiness test on the name falls back to it. The call carries the list
    holding the empty string exactly when the addresses prop is that
    list. *)
Theorem empty_name_falls_back_to_addresses p w :
  name p = Some "" ->
  lookup_targets p = addresses p /\
  calls (exec (useEffect_fetch p) w) =
    calls w ++ [Call_lookupTransactions (addresses p)
                  (lookup_options p (options (state w)))] /\
  (addresses p = None -> lookup_targets p = None) /\
  (lookup_targets p = Some [""] <-> addresses p = Some [""]).
Proof.
  intros Hn.
  assert (Ht : lookup_targets p = addresses p).
  { unfold lookup_targets. rewrite Hn. reflexivity. }
  split; [exact Ht|].
  split; [rewrite useEffect_fetch_calls, Ht; reflexivity|].
  rewrite Ht. split; [auto | reflexivity].
Qed.

(** C10. Whichever way the fetch settles, and whether or not an error sink
    was supplied, the reactions end with loading false. Without a sink a
    rejection calls nothing and stays a rejection of the chain's last
    promise, and loading is false all the same. *)
Theorem loading_cleared_on_settlement p w
    (outcome : Settled Reason LookupTransactionsResponse) :
  loading (state (exec (fetch_settled p outcome) w)) = false /\
  (forall e, setError p = None -> outcome = Rejected e ->
     eval (fetch_settled p outcome) w = Rejected e /\
     calls (exec (fetch_settled p outcome) w) = calls w /\
     res (state (exec (fetch_settled p outcome) w)) = res (state w) /\
     loading (state (exec (fetch_settled p outcome) w)) = false).
Proof.
  split.
  - destruct outcome as [r|e].
    + unfold exec. now rewrite fetch_settled_fulfilled.
    + unfold exec, fetch_settled, catch_handler.
      destruct (setError p); reflexivity.
  - intros e Hd ->. unfold exec, eval.
    rewrite (fetch_settled_rejected_no_sink p w e Hd). repeat split.
Qed.

End FetchProperties.

(** ** Runs on concrete props *)

Lemma lookup_type_filter_witness :
  opt_type
    (lookup_options
       {| listingType := 1; refreshingID := None;
          addresses := Some ["kre3w0i79j"]; name := None;
          includeMined := Some true; setError := @None nat |}
       (options initialState)) = Some TRANSACTIONS /\
  opt_type
    (lookup_options
       {| listingType := 3; refreshingID := None;
          addresses := None; name := Some "example";
          includeMined := None; setError := @None nat |}
       (options initialState)) = Some NAME_HISTORY /\
  opt_type
    (lookup_options
       {| listingType := 4; refreshingID := None;
          addresses := None; name := Some "example";
          includeMined := None; setError := @None nat |}
       (options initialState)) = Some NAME_TRANSACTIONS.
Proof.
  split; [|split].
  - destruct (@lookup_type_filter string nat
                {| listingType := 1; refreshingID := None;
                   addresses := Some ["kre3w0i79j"]; name := None;
                   includeMined := Some true; setError := None |}
                initialWorld) as (_ & _ & H & _).
    apply H. right. left. reflexivity.
  - destruct (@lookup_type_filter string nat
                {| listingType := 3; refreshingID := None;
                   addresses := None; name := Some "example";
                   includeMined := None; setError := None |}
                initialWorld) as (_ & _ & _ & H & _).
    apply H. reflexivity.
  - destruct (@lookup_type_filter string nat
                {| listingType := 4; refreshingID := None;
                   addresses := None; name := Some "example";
                   includeMined := None; setError := None |}
                initialWorld) as (_ & _ & _ & _ & H).
    apply H. reflexivity.
Defined.

(** C7, as the claim states it, fails for a name prop that is present but is
    the empty string: the targets of the call are then the addresses prop,
    not the list holding the name. *)
Lemma present_empty_name_is_not_the_target :
  let p := {| listingType := 3; refreshingID := None;
              addresses := Some ["kre3w0i79j"]; name := Some "";
              includeMined := None; setError := @None nat |} in
  name p = Some "" /\
  lookup_targets p = Some ["kre3w0i79j"] /\
  lookup_targets p <> Some [""] /\
  lookup_calls (calls (exec (useEffect_fetch p) (@initialWorld string nat))) =
    [ (Some ["kre3w0i79j"],
       {| opt_limit := Some 20; opt_offset := Some 0;
          opt_orderBy := Some "time"; opt_order := Some DESC;
          opt_includeMined := None; opt_type := Some NAME_HISTORY |}) ].
Proof. simpl. repeat split. discriminate. Qed.

Lemma lookup_call_arguments_witness :
  lookup_targets
    {| listingType := 3; refreshingID := Some 1;
       addresses := Some ["kre3w0i79j"]; name := Some "example";
       includeMined := Some false; setError := @None nat |} = Some ["example"] /\
  lookup_targets
    {| listingType := 0; refreshingID := Some 1;
       addresses := Some ["kre3w0i79j"; "k5ztameslf"]; name := None;
       includeMined := Some true; setError := @None nat |} =
    Some ["kre3w0i79j"; "k5ztameslf"].
Proof.
  split.
  - destruct (@lookup_call_arguments string nat
                {| listingType := 3; refreshingID := Some 1;
                   addresses := Some ["kre3w0i79j"]; name := Some "example";
                   includeMined := Some false; setError := None |}
                initialWorld) as (_ & H & _).
    apply (H "example"); [reflexivity | discriminate].
  - destruct (@lookup_call_arguments string nat
                {| listingType := 0; refreshingID := Some 1;
                   addresses := Some ["kre3w0i79j"; "k5ztameslf"]; name := None;
                   includeMined := Some true; setError := None |}
                initialWorld) as (_ & _ & H & _).
    apply H. left. reflexivity.
Defined.

Lemma empty_name_falls_back_to_addresses_witness :
  lookup_targets
    {| listingType := 3; refreshingID := None;
       addresses := Some ["kre3w0i79j"]; name := Some "";
       includeMined := None; setError := @None nat |} = Some ["kre3w0i79j"] /\
  lookup_targets
    {| listingType := 3; refreshingID := None;
       addresses := None; name := Some "";
       includeMined := None; setError := @None nat |} = None.
Proof.
  split.
  - destruct (@empty_name_falls_back_to_addresses string nat
                {| listingType := 3; refreshingID := None;
                   addresses := Some ["kre3w0i79j"]; name := Some "";
                   includeMined := None; setError := None |}
                initialWorld eq_refl) as (H & _).
    exact H.
  - destruct (@empty_name_falls_back_to_addresses string nat
                {| listingType := 3; refreshingID := None;
                   addresses := None; name := Some "";
                   includeMined := None; setError := None |}
                initialWorld eq_refl) as (_ & _ & H & _).
    apply H. reflexivity.
Defined.

Lemma loading_cleared_on_settlement_witness :
  eval
    (fetch_settled
       {| listingType := 0; refreshingID := None;
          addresses := None; name := None;
          includeMined := None; setError := @None nat |}
       (Rejected "network down"))
    (@initialWorld string nat) = Rejected "network down" /\
  loading
    (state
       (exec
          (fetch_settled
             {| listingType := 0; refreshingID := None;
                addresses := None; name := None;
                includeMined := None; setError := @None nat |}
             (Rejected "network down"))
          (@initialWorld string nat))) = false.
Proof.
  destruct (@loading_cleared_on_settlement string nat
              {| listingType := 0; refreshingID := None;
                 addresses := None; name := None;
                 includeMined := None; setError := None |}
              initialWorld (Rejected "network down")) as (_ & H).
  destruct (H "network down" eq_refl eq_refl) as (Hev & _ & _ & Hl).
  split; [exact Hev | exact Hl].
Defined.

(** * Further properties *)

(** ** AddressButtonRow: which wallet is found *)

Lemma Array_find_app {A : Type} (f : A -> bool) (l1 l2 : list A) :
  (forall x, In x l1 -> f x = false) ->
  Array_find f (l1 ++ l2) = Array_find f l2.
Proof.
  induction l1 as [|y tl IH]; simpl; intros H; [reflexivity|].
  rewrite (H y (or_introl eq_refl)). apply IH. intros x Hx. apply H. now right.
Qed.

Lemma Array_find_filter {A : Type} (f : A -> bool) (l : list A) :
  Array_find f (List.filter f l) = Array_find f l.
Proof.
  induction l as [|y tl IH]; simpl; [reflexivity|].
  destruct (f y) eqn:Hy; simpl; [now rewrite Hy | exact IH].
Qed.

Lemma Object_values_filter (a : KristAddressWithNames) (ws : WalletMap) :
  Object_values (List.filter (fun kw => wallet_matches a (snd kw)) ws) =
    List.filter (wallet_matches a) (Object_values ws).
Proof.
  unfold Object_values.
  induction ws as [|[k w] tl IH]; simpl; [reflexivity|].
  destruct (wallet_matches a w); simpl; now rewrite IH.
Qed.

Lemma AddressButtonRow_by_myWallet (a : KristAddressWithNames)
    (ws ws' : WalletMap) :
  myWallet a ws = myWallet a ws' -> AddressButtonRow a ws = AddressButtonRow a ws'.
Proof. unfold AddressButtonRow. now intros ->. Qed.

Lemma Array_find_unique (a : KristAddressWithNames) (l : list Wallet) (w : Wallet) :
  List.NoDup (map wallet_address l) -> In w l -> wallet_matches a w = true ->
  Array_find (wallet_matches a) l = Some w.
Proof.
  induction l as [|x tl IH]; simpl; intros Hnd Hin Hw; [contradiction|].
  inversion Hnd as [|? ? Hnotin Hnd']; subst.
  destruct (wallet_matches a x) eqn:Hx.
  - destruct Hin as [->|Hin]; [reflexivity|].
    exfalso. apply Hnotin.
    apply wallet_matches_eq in Hx, Hw. rewrite Hx, <- Hw.
    now apply in_map.
  - destruct Hin as [->|Hin]; [congruence|]. now apply IH.
Qed.

(** X10. The wallet the row works with is the first one, in the order of
    Object.values, whose address is the record's: wallets after it do not
    matter, also when one of them has the same address. *)
Theorem first_matching_wallet_wins
    (a : KristAddressWithNames) (l1 l2 : WalletMap) (k : string) (w : Wallet) :
  (forall w', In w' (Object_values l1) -> wallet_address w' <> address a) ->
  wallet_address w = address a ->
  myWallet a (l1 ++ (k, w) :: l2) = Some w /\
  AddressButtonRow a (l1 ++ (k, w) :: l2) =
    Fragment
      [ Button true SwapOutlined
          {| t_key := "address.buttonTransferKrist";
             t_address := Some (address a) |};
        WalletEditButton w
          (Button false EditOutlined
             {| t_key := "address.buttonEditWallet"; t_address := None |}) ].
Proof.
  intros Hnone Hw.
  assert (Hfind : myWallet a (l1 ++ (k, w) :: l2) = Some w).
  { unfold myWallet, Object_values. rewrite map_app. simpl.
    rewrite Array_find_app.
    - simpl. apply wallet_matches_eq in Hw. now rewrite Hw.
    - intros x Hx. apply wallet_matches_neq. now apply Hnone. }
  split; [exact Hfind|].
  unfold AddressButtonRow. now rewrite Hfind.
Qed.

Lemma first_matching_wallet_wins_witness :
  myWallet {| address := "kre3w0i79j"; names := None |}
    ([ ("w1", {| wallet_id := "w1"; wallet_address := "k5ztameslf" |}) ] ++
     ("w2", {| wallet_id := "w2"; wallet_address := "kre3w0i79j" |}) ::
     [ ("w3", {| wallet_id := "w3"; wallet_address := "kre3w0i79j" |}) ]) =
    Some {| wallet_id := "w2"; wallet_address := "kre3w0i79j" |}.
Proof.
  apply (first_matching_wallet_wins
           {| address := "kre3w0i79j"; names := None |}
           [ ("w1", {| wallet_id := "w1"; wallet_address := "k5ztameslf" |}) ]
           [ ("w3", {| wallet_id := "w3"; wallet_address := "kre3w0i79j" |}) ]
           "w2" {| wallet_id := "w2"; wallet_address := "kre3w0i79j" |}).
  - simpl. intros w' [<-|[]]. simpl. discriminate.
  - reflexivity.
Defined.

(** X11. When no two wallets of the set have the same address, the row does
    not depend on the order in which the wallet set is enumerated. *)
Theorem wallet_order_is_irrelevant
    (a : KristAddressWithNames) (ws ws' : WalletMap) :
  List.NoDup (map wallet_address (Object_values ws)) ->
  Permutation ws ws' ->
  AddressButtonRow a ws = AddressButtonRow a ws'.
Proof.
  intros Hnd Hperm. apply AddressButtonRow_by_myWallet.
  assert (Hvals : Permutation (Object_values ws) (Object_values ws'))
    by (unfold Object_values; now apply Permutation_map).
  assert (Hnd' : List.NoDup (map wallet_address (Object_values ws'))).
  { eapply Permutation_NoDup; [|exact Hnd]. now apply Permutation_map. }
  unfold myWallet.
  destruct (Array_find (wallet_matches a) (Object_values ws)) as [w|] eqn:E.
  - destruct (Array_find_Some _ _ _ E) as [Hin Hw].
    symmetry. apply Array_find_unique; auto.
    eapply Permutation_in; eauto.
  - symmetry. apply Array_find_None. intros x Hx.
    rewrite Array_find_None in E. apply E.
    eapply Permutation_in; [symmetry; exact Hvals | exact Hx].
Qed.

Lemma wallet_order_is_irrelevant_witness :
  AddressButtonRow {| address := "kre3w0i79j"; names := None |}
    [ ("w1", {| wallet_id := "w1"; wallet_address := "k5ztameslf" |});
      ("w2", {| wallet_id := "w2"; wallet_address := "kre3w0i79j" |}) ] =
  AddressButtonRow {| address := "kre3w0i79j"; names := None |}
    [ ("w2", {| wallet_id := "w2"; wallet_address := "kre3w0i79j" |});
      ("w1", {| wallet_id := "w1"; wallet_address := "k5ztameslf" |}) ].
Proof.
  apply wallet_order_is_irrelevant.
  - simpl. constructor.
    + simpl. intros [H|[]]. discriminate H.
    + constructor; [intros [] | constructor].
  - apply perm_swap.
Defined.

(** X12. Wallets with another address have no influence on the row: it is
    the row of the wallet set restricted to the wallets that have the
    record's address. *)
Theorem non_matching_wallets_are_ignored
    (a : KristAddressWithNames) (ws : WalletMap) :
  AddressButtonRow a ws =
    AddressButtonRow a (List.filter (fun kw => wallet_matches a (snd kw)) ws).
Proof.
  apply AddressButtonRow_by_myWallet. unfold myWallet.
  rewrite Object_values_filter. symmetry. apply Array_find_filter.
Qed.

(** ** TransactionsTable: when the From and To cells show an address *)

(** X13. The From cell is an address reference exactly when the from field
    is a non-empty string and the type is not "mined"; in every other case
    it shows nothing. *)
Theorem from_cell_shown_iff (tx : KristTransaction) :
  (is_address_reference (render_from tx) = true <->
   exists a, tx_from tx = Some a /\ a <> "" /\ tx_type tx <> "mined") /\
  renders_nothing (render_from tx) =
    negb (is_address_reference (render_from tx)).
Proof.
  unfold render_from, strict_eq_str.
  destruct (tx_from tx) as [from|].
  - destruct (string_dec from "") as [->|Hne].
    + split; [|reflexivity]. split; [discriminate|].
      intros (a & [= <-] & Ha & _). now elim Ha.
    + rewrite js_and_nonempty by exact Hne.
      destruct (String.eqb (tx_type tx) "mined") eqn:E; simpl.
      * apply String.eqb_eq in E. split; [|reflexivity].
        split; [discriminate|]. intros (a & _ & _ & Ht). now elim Ht.
      * apply String.eqb_neq in E. split; [|reflexivity].
        split; [|reflexivity]. intros _. exists from. auto.
  - split; [|reflexivity]. split; [discriminate|].
    intros (a & Ha & _). discriminate Ha.
Qed.

(** X14. The To cell is an address reference exactly when the to field is a
    non-empty string and the type is neither "name_purchase" nor
    "name_a_record"; in every other case it shows nothing. *)
Theorem to_cell_shown_iff (tx : KristTransaction) :
  (is_address_reference (render_to tx) = true <->
   exists a, tx_to tx = Some a /\ a <> "" /\
             tx_type tx <> "name_purchase" /\ tx_type tx <> "name_a_record") /\
  renders_nothing (render_to tx) =
    negb (is_address_reference (render_to tx)).
Proof.
  unfold render_to, strict_eq_str.
  destruct (tx_to tx) as [to|].
  - destruct (string_dec to "") as [->|Hne].
    + split.
      * split.
        -- destruct (negb (String.eqb (tx_type tx) "name_purchase"));
             destruct (negb (String.eqb (tx_type tx) "name_a_record"));
             discriminate.
        -- intros (a & [= <-] & Ha & _). now elim Ha.
      * destruct (negb (String.eqb (tx_type tx) "name_purchase"));
          destruct (negb (String.eqb (tx_type tx) "name_a_record"));
          reflexivity.
    + rewrite js_and_nonempty by exact Hne.
      destruct (String.eqb_spec (tx_type tx) "name_purchase") as [E1|E1];
        destruct (String.eqb_spec (tx_type tx) "name_a_record") as [E2|E2];
        simpl; (split; [|reflexivity]); split;
        try discriminate; try reflexivity;
        try (intros (a & _ & _ & H1 & H2); contradiction).
      intros _. exists to. auto.
  - split; [|reflexivity]. split; [discriminate|].
    intros (a & Ha & _). discriminate Ha.
Qed.

Lemma from_cell_shown_iff_witness :
  is_address_reference
    (render_from {| tx_id := 9; tx_from := Some "kre3w0i79j"; tx_to := Some "k5ztameslf";
                    tx_value := 3; tx_time := "2021-03-01T12:00:00.000Z";
                    tx_name := None; tx_metadata := Some "hello";
                    tx_type := "transfer" |}) = true.
Proof.
  destruct (from_cell_shown_iff
              {| tx_id := 9; tx_from := Some "kre3w0i79j"; tx_to := Some "k5ztameslf";
                 tx_value := 3; tx_time := "2021-03-01T12:00:00.000Z";
                 tx_name := None; tx_metadata := Some "hello";
                 tx_type := "transfer" |}) as [[_ H] _].
  apply H. exists "kre3w0i79j". simpl. repeat split; discriminate.
Defined.

Lemma to_cell_shown_iff_witness :
  is_address_reference
    (render_to {| tx_id := 7; tx_from := None; tx_to := Some "k5ztameslf";
                  tx_value := 25; tx_time := "2021-03-01T12:00:00.000Z";
                  tx_name := None; tx_metadata := None;
                  tx_type := "mined" |}) = true.
Proof.
  destruct (to_cell_shown_iff
              {| tx_id := 7; tx_from := None; tx_to := Some "k5ztameslf";
                 tx_value := 25; tx_time := "2021-03-01T12:00:00.000Z";
                 tx_name := None; tx_metadata := None;
                 tx_type := "mined" |}) as [[_ H] _].
  apply H. exists "k5ztameslf". simpl. repeat split; discriminate.
Defined.

(** ** TransactionsTable: the life cycle *)

Section LifeCycleProperties.

Context {Reason Dispatch : Type}.

Implicit Types (p : Props Dispatch) (w : World Reason Dispatch)
  (ev : Event Reason Dispatch) (evs : list (Event Reason Dispatch)).

Lemma lookup_calls_app (l1 l2 : list (Call Reason Dispatch)) :
  lookup_calls (l1 ++ l2) = lookup_calls l1 ++ lookup_calls l2.
Proof.
  induction l1 as [|c tl IH]; simpl; [reflexivity|].
  destruct c; simpl; now rewrite IH.
Qed.

Lemma step_loading ev w :
  loading (state (step ev w)) =
    match ev with
    | Ev_effect _ => true
    | Ev_settled _ _ => false
    end.
Proof.
  destruct ev as [p | p [r|e]];
    unfold step, exec, fetch_settled, catch_handler;
    try destruct (setError p); reflexivity.
Qed.

Lemma step_res ev w :
  res (state (step ev w)) =
    match ev with
    | Ev_settled _ (Fulfilled r) => Some r
    | _ => res (state w)
    end.
Proof.
  destruct ev as [p | p [r|e]];
    unfold step, exec, fetch_settled, catch_handler;
    try destruct (setError p); reflexivity.
Qed.

Lemma step_options ev w :
  options (state (step ev w)) = options (state w).
Proof.
  destruct ev as [p | p [r|e]];
    unfold step, exec, fetch_settled, catch_handler;
    try destruct (setError p); reflexivity.
Qed.

Lemma step_calls ev w :
  calls (step ev w) =
    calls w ++
    match ev with
    | Ev_effect p =>
        [Call_lookupTransactions (lookup_targets p)
           (lookup_options p (options (state w)))]
    | Ev_settled p (Rejected e) =>
        match setError p with
        | Some d => [Call_setError d e]
        | None => []
        end
    | Ev_settled _ (Fulfilled _) => []
    end.
Proof.
  destruct ev as [p | p [r|e]];
    unfold step, exec, fetch_settled, catch_handler;
    try destruct (setError p); simpl; rewrite ?app_nil_r; reflexivity.
Qed.

(** X1. When a fetch is fulfilled, the response becomes the table's
    response and its transactions the rows, loading becomes false, the
    options stay, and nothing is called: the error sink is not touched,
    supplied or not. *)
Theorem fetch_fulfilment_stores_response (T : list string) p w
    (r : LookupTransactionsResponse) :
  eval (fetch_settled p (Fulfilled r)) w = Fulfilled tt /\
  res (state (exec (fetch_settled p (Fulfilled r)) w)) = Some r /\
  tp_dataSource
    (TransactionsTable_render T (state (exec (fetch_settled p (Fulfilled r)) w))) =
    transactions r /\
  tp_loading
    (TransactionsTable_render T (state (exec (fetch_settled p (Fulfilled r)) w))) =
    false /\
  options (state (exec (fetch_settled p (Fulfilled r)) w)) = options (state w) /\
  calls (exec (fetch_settled p (Fulfilled r)) w) = calls w.
Proof.
  unfold exec, eval. rewrite fetch_settled_fulfilled. repeat split.
Qed.

(** X2. The promise at the end of the chain is rejected exactly when the
    lookup rejected and no error sink was supplied, and then with the
    lookup's own reason: a supplied sink consumes every rejection. *)
Theorem chain_rejected_iff_no_sink p w
    (outcome : Settled Reason LookupTransactionsResponse) (e : Reason) :
  eval (fetch_settled p outcome) w = Rejected e <->
  outcome = Rejected e /\ setError p = None.
Proof.
  unfold eval. destruct outcome as [r|e'].
  - rewrite fetch_settled_fulfilled. simpl. split; [discriminate|].
    intros [H _]. discriminate H.
  - destruct (setError p) as [d|] eqn:Hd.
    + rewrite (fetch_settled_rejected_sink p w d e' Hd). simpl.
      split; [discriminate|]. intros [_ H]. discriminate H.
    + rewrite (fetch_settled_rejected_no_sink p w e' Hd). simpl.
      split; [intros [= ->]; auto | intros [[= ->] _]; reflexivity].
Qed.

(** X3. After any sequence of effect runs and settlements, the response the
    table holds is that of the fulfilment that arrived last, whichever
    request it answers; with no fulfilment yet it is the one held before,
    and the rows are empty when there is none. *)
Theorem displayed_response_is_last_fulfilled (T : list string) evs w :
  res (state (play evs w)) = last_fulfilled evs (res (state w)) /\
  tp_dataSource (TransactionsTable_render T (state (play evs w))) =
    match last_fulfilled evs (res (state w)) with
    | Some r => transactions r
    | None => []
    end.
Proof.
  assert (H : res (state (play evs w)) = last_fulfilled evs (res (state w))).
  { revert w. induction evs as [|ev tl IH]; intros w; simpl; [reflexivity|].
    rewrite IH, step_res. destruct ev as [p | p [r|e]]; reflexivity. }
  split; [exact H|]. simpl. unfold dataSource. now rewrite H.
Qed.

(** X4. After any sequence of effect runs and settlements, loading tells
    only which kind of event came last: true after a run of the effect,
    false after a settlement, also while other lookups are still pending. *)
Theorem loading_follows_last_event evs w :
  loading (state (play evs w)) = last_is_effect evs (loading (state w)).
Proof.
  revert w. induction evs as [|ev tl IH]; intros w; simpl; [reflexivity|].
  rewrite IH, step_loading. destruct ev; reflexivity.
Qed.

(** X5. Effect runs and settlements never change the options, and each run
    of the effect makes exactly one lookup call, with the targets of its
    props and these options; settlements make none. *)
Theorem one_lookup_per_effect_run evs w :
  options (state (play evs w)) = options (state w) /\
  lookup_calls (calls (play evs w)) =
    lookup_calls (calls w) ++
    map (fun p => (lookup_targets p, lookup_options p (options (state w))))
        (effect_props evs).
Proof.
  revert w. induction evs as [|ev tl IH]; intros w; simpl.
  - split; [reflexivity | now rewrite app_nil_r].
  - destruct (IH (step ev w)) as [IHo IHc].
    rewrite IHo, IHc, step_options, step_calls, lookup_calls_app.
    split; [reflexivity|].
    rewrite <- app_assoc. f_equal.
    destruct ev as [p | p [r|e]]; simpl; try reflexivity.
    destruct (setError p); reflexivity.
Qed.

(** X6. After any sequence of effect runs and settlements, the calls of
    error sinks are, in order, one per rejection that arrived for a fetch
    issued with a sink, each with that rejection's reason; effect runs,
    fulfilments and rejections without a sink add none. *)
Theorem sink_calls_are_the_rejections evs w :
  setError_calls (calls (play evs w)) =
    setError_calls (calls w) ++ sunk_rejections evs.
Proof.
  revert w. induction evs as [|ev tl IH]; intros w; simpl.
  - now rewrite app_nil_r.
  - rewrite IH, step_calls, setError_calls_app, <- app_assoc. f_equal.
    destruct ev as [p | p [r|e]]; simpl; try reflexivity.
    destruct (setError p); reflexivity.
Qed.

(** X7. Responses are not matched to requests: when two fetches are in
    flight and the later one is fulfilled first, the fulfilment of the
    earlier one replaces its response, and the table ends up showing the
    answer to the older request, not loading. *)
Theorem older_response_overwrites_newer (T : list string) p1 p2 w
    (r1 r2 : LookupTransactionsResponse) :
  res (state (play [Ev_effect p1; Ev_effect p2;
                    Ev_settled p2 (Fulfilled r2)] w)) = Some r2 /\
  res (state (play [Ev_effect p1; Ev_effect p2;
                    Ev_settled p2 (Fulfilled r2);
                    Ev_settled p1 (Fulfilled r1)] w)) = Some r1 /\
  tp_dataSource
    (TransactionsTable_render T
       (state (play [Ev_effect p1; Ev_effect p2;
                     Ev_settled p2 (Fulfilled r2);
                     Ev_settled p1 (Fulfilled r1)] w))) = transactions r1 /\
  loading (state (play [Ev_effect p1; Ev_effect p2;
                        Ev_settled p2 (Fulfilled r2);
                        Ev_settled p1 (Fulfilled r1)] w)) = false.
Proof. repeat split. Qed.

(** X8. A listing type outside 0..4 has no entry in LISTING_TYPE_MAP: the
    lookup call then carries no type filter; for 0..4 it always carries
    one. *)
Theorem type_filter_absent_iff_unknown_listing_type p
    (o : LookupTransactionsOptions) :
  opt_type (lookup_options p o) = None <->
  (listingType p < 0 \/ 4 < listingType p).
Proof.
  simpl. unfold LISTING_TYPE_MAP.
  rewrite <- not_elem_of_list_to_map. simpl.
  rewrite !not_elem_of_cons. split.
  - intros (H0 & H1 & H2 & H3 & H4 & _). lia.
  - intros H. repeat split; try lia. apply not_elem_of_nil.
Qed.

(** X9. The target named by the effect's debug line is computed from the
    targets of the lookup call: the targets joined by commas when the call
    has targets, the word "network" when it has none. *)
Theorem debug_target_names_lookup_targets p :
  debug_target p =
    match lookup_targets p with
    | Some l => Array_join "," l
    | None => "network"
    end.
Proof.
  unfold debug_target, lookup_targets.
  destruct (name p) as [n|]; [|reflexivity].
  destruct (truthy (JStr n)); reflexivity.
Qed.

End LifeCycleProperties.

Lemma chain_rejected_iff_no_sink_witness :
  eval
    (fetch_settled
       {| listingType := 0; refreshingID := None;
          addresses := Some ["kre3w0i79j"]; name := None;
          includeMined := None; setError := @None nat |}
       (Rejected "network down"))
    (@initialWorld string nat) = Rejected "network down".
Proof.
  apply (chain_rejected_iff_no_sink
           {| listingType := 0; refreshingID := None;
              addresses := Some ["kre3w0i79j"]; name := None;
              includeMined := None; setError := @None nat |}
           initialWorld (Rejected "network down") "network down").
  split; reflexivity.
Defined.

Lemma type_filter_absent_iff_unknown_listing_type_witness :
  opt_type
    (lookup_options
       {| listingType := 5; refreshingID := None;
          addresses := None; name := None;
          includeMined := None; setError := @None nat |}
       (options initialState)) = None.
Proof.
  apply (type_filter_absent_iff_unknown_listing_type
           {| listingType := 5; refreshingID := None;
              addresses := None; name := None;
              includeMined := None; setError := @None nat |}
           (options initialState)).
  right. simpl. lia.
Defined.

(** ** TransactionsTable: a rejection among other events *)

Section RejectionProperties.

Context {Reason Dispatch : Type}.

Implicit Types (p : Props Dispatch) (w : World Reason Dispatch)
  (ev : Event Reason Dispatch) (evs : list (Event Reason Dispatch)).

Lemma play_app evs1 evs2 w :
  play (evs1 ++ evs2) w = play evs2 (play evs1 w).
Proof.
  revert w. induction evs1 as [|ev tl IH]; intros w; simpl; [reflexivity|].
  apply IH.
Qed.

Lemma play_res evs w :
  res (state (play evs w)) = last_fulfilled evs (res (state w)).
Proof.
  revert w. induction evs as [|ev tl IH]; intros w; simpl; [reflexivity|].
  rewrite IH, step_res. destruct ev as [p | p [r|e]]; reflexivity.
Qed.

Lemma last_fulfilled_without_fulfilment evs
    (r0 : option LookupTransactionsResponse) :
  existsb is_fulfilment evs = false -> last_fulfilled evs r0 = r0.
Proof.
  induction evs as [|ev tl IH]; simpl; [reflexivity|].
  destruct ev as [p | p [r|e]]; simpl; try exact IH. discriminate.
Qed.

(** C1, amended. When a fetch rejects and the caller supplied an error sink,
    the reactions call that sink once, with the rejection reason, and
    nothing else; loading becomes false; the response is left as it was
    when the rejection arrived. Whatever happened between the issue of the
    fetch and its rejection, that response is the one of the last
    fulfilment that arrived in between, and the one from before the fetch
    when no fetch was fulfilled in between. *)
Theorem fetch_rejection_reaches_sink p w (d : Dispatch) (e : Reason) evs :
  setError p = Some d ->
  (forall w',
     calls (exec (fetch_settled p (Rejected e)) w') =
       calls w' ++ [Call_setError d e] /\
     setError_calls (calls (exec (fetch_settled p (Rejected e)) w')) =
       setError_calls (calls w') ++ [(d, e)] /\
     loading (state (exec (fetch_settled p (Rejected e)) w')) = false /\
     res (state (exec (fetch_settled p (Rejected e)) w')) = res (state w')) /\
  loading (state (exec (useEffect_fetch p) w)) = true /\
  res (state (play (Ev_effect p :: evs ++ [Ev_settled p (Rejected e)]) w)) =
    last_fulfilled evs (res (state w)) /\
  (existsb is_fulfilment evs = false ->
   res (state (play (Ev_effect p :: evs ++ [Ev_settled p (Rejected e)]) w)) =
     res (state w)).
Proof.
  intros Hd.
  assert (Hres : res (state (play (Ev_effect p :: evs ++
                                     [Ev_settled p (Rejected e)]) w)) =
                 last_fulfilled evs (res (state w))).
  { change (Ev_effect p :: evs ++ [Ev_settled p (Rejected e)])
      with ((Ev_effect p :: evs) ++ [Ev_settled p (Rejected e)]).
    rewrite play_app, play_res. simpl last_fulfilled.
    rewrite play_res. reflexivity. }
  split; [|split; [reflexivity|split; [exact Hres|]]].
  - intros w'. unfold exec.
    rewrite (fetch_settled_rejected_sink p w' d e Hd). simpl.
    rewrite setError_calls_app. repeat split.
  - intros Hnone. rewrite Hres.
    now apply last_fulfilled_without_fulfilment.
Qed.

End RejectionProperties.

Lemma fetch_rejection_reaches_sink_witness :
  setError_calls
    (calls
       (exec
          (fetch_settled
             {| listingType := 0; refreshingID := None;
                addresses := Some ["kre3w0i79j"]; name := None;
                includeMined := Some true; setError := Some 5%nat |}
             (Rejected "rate limit hit"))
          (exec
             (useEffect_fetch
                {| listingType := 0; refreshingID := None;
                   addresses := Some ["kre3w0i79j"]; name := None;
                   includeMined := Some true; setError := Some 5%nat |})
             initialWorld))) = [(5%nat, "rate limit hit")] /\
  res
    (state
       (play
          (Ev_effect
             {| listingType := 0; refreshingID := None;
                addresses := Some ["kre3w0i79j"]; name := None;
                includeMined := Some true; setError := Some 5%nat |} ::
           [ Ev_effect
               {| listingType := 0; refreshingID := Some 1;
                  addresses := Some ["kre3w0i79j"]; name := None;
                  includeMined := Some true; setError := Some 5%nat |} ] ++
           [ Ev_settled
               {| listingType := 0; refreshingID := None;
                  addresses := Some ["kre3w0i79j"]; name := None;
                  includeMined := Some true; setError := Some 5%nat |}
               (Rejected "rate limit hit") ])
          (@initialWorld string nat))) = None.
Proof.
  destruct (@fetch_rejection_reaches_sink string nat
              {| listingType := 0; refreshingID := None;
                 addresses := Some ["kre3w0i79j"]; name := None;
                 includeMined := Some true; setError := Some 5%nat |}
              initialWorld 5%nat "rate limit hit"
              [ Ev_effect
                  {| listingType := 0; refreshingID := Some 1;
                     addresses := Some ["kre3w0i79j"]; name := None;
                     includeMined := Some true; setError := Some 5%nat |} ]
              eq_refl) as (Hany & _ & _ & Hres).
  split.
  - destruct (Hany
                (exec
                   (useEffect_fetch
                      {| listingType := 0; refreshingID := None;
                         addresses := Some ["kre3w0i79j"]; name := None;
                         includeMined := Some true; setError := Some 5%nat |})
                   initialWorld)) as (_ & H & _).
    exact H.
  - apply Hres. reflexivity.
Defined.

(** C1, as the claim states it, fails when another fetch is fulfilled while
    the rejected one is in flight: the table held no response before the
    first fetch was issued, and holds the second fetch's response after the
    first one is rejected. *)
Lemma rejected_fetch_does_not_restore_earlier_response :
  let p1 := {| listingType := 0; refreshingID := None;
               addresses := Some ["kre3w0i79j"]; name := None;
               includeMined := Some true; setError := Some 5%nat |} in
  let p2 := {| listingType := 0; refreshingID := Some 1;
               addresses := Some ["kre3w0i79j"]; name := None;
               includeMined := Some true; setError := Some 5%nat |} in
  let r2 := {| transactions :=
                 [ {| tx_id := 9; tx_from := Some "kre3w0i79j";
                      tx_to := Some "k5ztameslf"; tx_value := 3;
                      tx_time := "2021-03-01T12:00:00.000Z";
                      tx_name := None; tx_metadata := None;
                      tx_type := "transfer" |} ];
               count := 1; total := 1 |} in
  res (state (@initialWorld string nat)) = None /\
  res (state (play [ Ev_effect p1; Ev_effect p2;
                     Ev_settled p2 (Fulfilled r2);
                     Ev_settled p1 (Rejected "rate limit hit") ]
                (@initialWorld string nat))) = Some r2 /\
  res (state (play [ Ev_effect p1; Ev_effect p2;
                     Ev_settled p2 (Fulfilled r2);
                     Ev_settled p1 (Rejected "rate limit hit") ]
                (@initialWorld string nat))) <>
    res (state (@initialWorld string nat)).
Proof. simpl. repeat split. discriminate. Qed.

(** C9, as the claim states it, fails when the addresses prop is itself the
    list holding the empty string: with the empty name the call then
    carries that list. *)
Lemma empty_name_with_empty_address_passes_it :
  let p := {| listingType := 0; refreshingID := None;
              addresses := Some [""]; name := Some "";
              includeMined := None; setError := @None nat |} in
  name p = Some "" /\
  lookup_targets p = Some [""] /\
  lookup_calls (calls (exec (useEffect_fetch p) (@initialWorld string nat))) =
    [ (Some [""],
       {| opt_limit := Some 20; opt_offset := Some 0;
          opt_orderBy := Some "time"; opt_order := Some DESC;
          opt_includeMined := None; opt_type := Some TRANSACTIONS |}) ].
Proof. simpl. repeat split. Qed.
